(** * Hazard-map generator: shallow embedding of
      [scripts/generate_improved_hazard_maps.py]

    The Python script builds three gradient-noise fields, walks a
    latitude/longitude grid and synthesises one record per grid cell.

    Conventions of the embedding.
    - A Python [float] is an exact rational ([Q]): the development states
      what the program computes in exact arithmetic; binary64 rounding,
      overflow and NaN are outside the model.
    - A Python [int] is a [Z]; [&] is [Z.land]; [math.floor] is [Qfloor].
    - Code that can raise returns in [exec]; [while] loops take fuel and
      answer [OutOfFuel] when it runs out.
    - The module-level generator of [random] is threaded as explicit state;
      its primitives are an interface ([PRNG]), since the standard library
      is not part of the repository.
    - Printing and the CSV writer are not modelled: [generate_hazard_map]
      returns its local frame as it stands when the walk is over. *)

From Stdlib Require Import NArith ZArith QArith Qround Qabs Lia Lqa Psatz.
From Stdlib Require Import Bool List String Ascii Permutation FinFun.
Import ListNotations.

Set Implicit Arguments.

(* ================================================================== *)
(** ** Outcomes and the state-and-exception monad *)

(** A Python exception is identified by the name of its class. *)
Definition exn := string.

Inductive exec (A : Type) : Type :=
| Ok (a : A)
| Raise (e : exn)
| OutOfFuel.

Arguments Ok {A} a.
Arguments Raise {A} e.
Arguments OutOfFuel {A}.

Definition M (S A : Type) : Type := S -> exec (A * S).

Definition ret {S A : Type} (a : A) : M S A := fun s => Ok (a, s).

Definition bind {S A B : Type} (m : M S A) (k : A -> M S B) : M S B :=
  fun s =>
    match m s with
    | Ok (a, s') => k a s'
    | Raise e => Raise e
    | OutOfFuel => OutOfFuel
    end.

Definition raise {S A : Type} (e : exn) : M S A := fun _ => Raise e.

Definition out_of_fuel {S A : Type} : M S A := fun _ => OutOfFuel.

Definition get {S : Type} : M S S := fun s => Ok (s, s).

Definition put {S : Type} (s : S) : M S unit := fun _ => Ok (tt, s).

Declare Scope py_scope.
Delimit Scope py_scope with py.
Notation "x <- m ;; k" := (bind m (fun x => k))
  (at level 61, m at next level, right associativity) : py_scope.
Notation "' pat <- m ;; k" := (bind m (fun x => match x with pat => k end))
  (at level 61, pat pattern, m at next level, right associativity) : py_scope.
Notation "m ;; k" := (bind m (fun _ => k))
  (at level 61, right associativity) : py_scope.

Definition ZeroDivisionError : exn := "ZeroDivisionError"%string.
Definition IndexError : exn := "IndexError"%string.

(* ================================================================== *)
(** ** Python built-ins used by the script *)

Section Builtins.
Local Open Scope Z_scope.

(** [l[i]] on a list: a negative subscript counts from the end, anything
      outside [-len, len) is an [IndexError]. *)
Definition py_getitem {A : Type} (l : list A) (i : Z) : option A :=
    let n := Z.of_nat (List.length l) in
    if 0 <=? i then nth_error l (Z.to_nat i)
    else if - n <=? i then nth_error l (Z.to_nat (n + i))
    else None.

(** [l[i] = v] for an index known to be a natural number. *)
Fixpoint list_set {A : Type} (l : list A) (i : nat) (v : A) : list A :=
    match l, i with
    | [], _ => []
    | _ :: t, O => v :: t
    | h :: t, S i' => h :: list_set t i' v
    end.

(** [list(range(n))]. *)
Definition py_range (n : nat) : list Z := map Z.of_nat (seq 0 n).

(** [round] to the nearest integer, ties to the even neighbour. *)
Definition round_half_even (q : Q) : Z :=
    let f := Qfloor q in
    match (q - inject_Z f ?= 1 # 2)%Q with
    | Lt => f
    | Gt => f + 1
    | Eq => if Z.even f then f else f + 1
    end.

(** [round(x, ndigits)]. *)
Definition py_round (x : Q) (ndigits : nat) : Q :=
    let scale := 10 ^ Z.of_nat ndigits in
    Qmake (round_half_even (x * inject_Z scale)%Q) (Z.to_pos scale).

(** [a / b] on floats. *)
Definition py_truediv {S : Type} (a b : Q) : M S Q :=
    if Qeq_bool b 0 then raise ZeroDivisionError else ret (a / b)%Q.
End Builtins.

Section Strings.
Local Open Scope string_scope.

Definition ascii_upper (c : ascii) : ascii :=
    let n := nat_of_ascii c in
    if (97 <=? n)%nat && (n <=? 122)%nat then ascii_of_nat (n - 32) else c.

(** [s.upper()] on an ASCII string. *)
Fixpoint str_upper (s : string) : string :=
    match s with
    | EmptyString => EmptyString
    | String c s' => String (ascii_upper c) (str_upper s')
    end.

(** ["0" * n]. *)
Fixpoint zeros (n : nat) : string :=
    match n with
    | O => EmptyString
    | S n' => String "0" (zeros n')
    end.

Definition digit_char (d : N) : ascii := ascii_of_N (48 + d).

(** The decimal digits of [n], least significant first; the number of bits
    of [n] is fuel enough. *)
Fixpoint digits_lsb (fuel : nat) (n : N) : list N :=
  match fuel with
  | O => []
  | S fuel' =>
      (n mod 10)%N
      :: (if (n <? 10)%N then [] else digits_lsb fuel' (n / 10)%N)
  end.

(** [str(n)] for a natural number. *)
Definition digits_of (n : N) : string :=
  string_of_list_ascii
    (map digit_char (rev (digits_lsb (S (N.to_nat (N.size n))) n))).

Definition zfill (width : nat) (s : string) : string :=
    zeros (width - String.length s) ++ s.

(** The format specification [06d]: sign-aware zero padding to a minimum
      width of six characters. *)
Definition format_06d (n : Z) : string :=
    match n with
    | Zneg p => String "-" (zfill 5 (digits_of (Npos p)))
    | _ => zfill 6 (digits_of (Z.to_N n))
    end.
End Strings.

(* ================================================================== *)
(** ** The [random] module, as far as the script uses it *)

(** The generator itself (a Mersenne Twister in CPython) is a parameter:
    [rng_seed] is the state installed by [random.seed(a)], [rng_random] is
    [random.random()], [rng_randbelow n] is the internal [_randbelow(n)].
    The two laws are the documented ranges of these primitives. *)
Record PRNG : Type := {
  rng_state : Type;
  rng_seed : Z -> rng_state;
  rng_random : rng_state -> Q * rng_state;
  rng_randbelow : nat -> rng_state -> nat * rng_state;
  rng_random_range :
    forall s, (0 <= fst (rng_random s))%Q /\ (fst (rng_random s) < 1)%Q;
  rng_randbelow_range :
    forall n s, (0 < n)%nat -> (fst (rng_randbelow n s) < n)%nat
}.

Section Random.
Context {G : PRNG}.
Local Open Scope py_scope.

Definition random_seed (a : Z) : M (rng_state G) unit := put (rng_seed G a).

Definition random_random : M (rng_state G) Q :=
    fun s => Ok (rng_random G s).

Definition randbelow (n : nat) : M (rng_state G) nat :=
    fun s => Ok (rng_randbelow G n s).

(** [random.uniform(a, b)] is [a + (b - a) * random()]. *)
Definition random_uniform (a b : Q) : M (rng_state G) Q :=
    r <- random_random ;;
    ret (a + (b - a) * r)%Q.

(** [random.shuffle(x)]:
      [for i in reversed(range(1, len(x))):
           j = randbelow(i + 1); x[i], x[j] = x[j], x[i]]. *)
Fixpoint shuffle_from (i : nat) (x : list Z) : M (rng_state G) (list Z) :=
    match i with
    | O => ret x
    | S i' =>
        j <- randbelow (i + 1) ;;
        let xi := nth i x 0%Z in
        let xj := nth j x 0%Z in
        shuffle_from i' (list_set (list_set x i xj) j xi)
    end.

Definition random_shuffle (x : list Z) : M (rng_state G) (list Z) :=
    shuffle_from (List.length x - 1) x.
End Random.

(* ================================================================== *)
(** ** [smooth_interpolate] and class [PerlinNoise] *)

Section Noise.
Local Open Scope Q_scope.
Local Open Scope py_scope.

Definition smooth_interpolate (a b t : Q) : Q :=
    let t := t * t * (3 - 2 * t) in
    a + t * (b - a).

Record PerlinNoise : Type := { permutation : list Z }.

(** What a method call works on: the receiver, and the list of the
      subscripts with which [self.permutation] has been read so far.  The
      list is ghost state: no result depends on it. *)
Record Access : Type := { self : PerlinNoise; subscripts : list Z }.

(** [self.permutation[i]]. *)
Definition subscript (i : Z) : M Access Z :=
    fun st =>
      match py_getitem (permutation (self st)) i with
      | Some v => Ok (v, {| self := self st; subscripts := subscripts st ++ [i] |})
      | None => Raise IndexError
      end.

Definition fade (t : Q) : Q := t * t * t * (t * (t * 6 - 15) + 10).

Definition lerp (t a b : Q) : Q := a + t * (b - a).

Definition grad (hash_val : Z) (x y : Q) : Q :=
    let h := Z.land hash_val 3 in
    let u := if (h <? 2)%Z then x else y in
    let v := if (h <? 2)%Z then y else x in
    (if (Z.land h 1 =? 0)%Z then u else - u)
    + (if (Z.land h 2 =? 0)%Z then v else - v).

Definition noise (x y : Q) : M Access Q :=
    let xi := Z.land (Qfloor x) 255 in
    let yi := Z.land (Qfloor y) 255 in
    let xf := x - inject_Z (Qfloor x) in
    let yf := y - inject_Z (Qfloor y) in
    let u := fade xf in
    let v := fade yf in
    p0 <- subscript xi ;;
    aa <- subscript (p0 + yi)%Z ;;
    p0 <- subscript xi ;;
    ab <- subscript (p0 + yi + 1)%Z ;;
    p1 <- subscript (xi + 1)%Z ;;
    ba <- subscript (p1 + yi)%Z ;;
    p1 <- subscript (xi + 1)%Z ;;
    bb <- subscript (p1 + yi + 1)%Z ;;
    let x1 := lerp u (grad aa xf yf) (grad ba (xf - 1) yf) in
    let x2 := lerp u (grad ab xf (yf - 1)) (grad bb (xf - 1) (yf - 1)) in
    ret (lerp v x1 x2).

(** The body of [for _ in range(octaves)], iterated [n] times on the four
      local variables. *)
Fixpoint octave_loop (n : nat) (x y persistence lacunarity : Q)
      (total frequency amplitude max_value : Q) : M Access (Q * Q) :=
    match n with
    | O => ret (total, max_value)
    | S n' =>
        v <- noise (x * frequency) (y * frequency) ;;
        octave_loop n' x y persistence lacunarity
          (total + v * amplitude) (frequency * lacunarity)
          (amplitude * persistence) (max_value + amplitude)
    end.

Definition multi_octave_noise (x y : Q) (octaves : Z)
      (persistence lacunarity : Q) : M Access Q :=
    ' (total, max_value) <-
      octave_loop (Z.to_nat octaves) x y persistence lacunarity 0 1 1 0 ;;
    py_truediv total max_value.
End Noise.

Section Construction.
Context {G : PRNG}.
Local Open Scope py_scope.

(** [PerlinNoise.__init__]. *)
Definition PerlinNoise_init (seed : option Z) : M (rng_state G) PerlinNoise :=
    match seed with
    | Some a => random_seed a
    | None => ret tt
    end ;;
    p <- random_shuffle (py_range 256) ;;
    ret {| permutation := p ++ p |}.
End Construction.

(* ================================================================== *)
(** ** [generate_hazard_map] *)

(** One element of [rows]: the dictionary appended for a grid cell. *)
Module HazardRecord.
Record t : Type := {
  location_id : string;
  latitude : Q;
  longitude : Q;
  period_1_intensity_m : Q;
  period_1_variance : Q;
  period_2_intensity_m : Q;
  period_2_variance : Q;
  period_3_intensity_m : Q;
  period_3_variance : Q;
  hazard_type : string;
  unit : string
}.
End HazardRecord.

Section Walk.
Context {G : PRNG}.
Local Open Scope Q_scope.
Local Open Scope py_scope.

(** The mutable state of a run: the generator of [random], the three noise
    objects, the ghost list of subscripts, and the locals [rows] and
    [location_id]. *)
Record Frame : Type := {
  rng : rng_state G;
  perlin_large : PerlinNoise;
  perlin_medium : PerlinNoise;
  perlin_small : PerlinNoise;
  reads : list Z;
  rows : list HazardRecord.t;
  location_id : Z
}.

(** A call into [random]. *)
Definition with_random {A : Type} (m : M (rng_state G) A) : M Frame A :=
  fun fr =>
    match m (rng fr) with
    | Ok (a, g) =>
        Ok (a, {| rng := g;
                  perlin_large := perlin_large fr;
                  perlin_medium := perlin_medium fr;
                  perlin_small := perlin_small fr;
                  reads := reads fr;
                  rows := rows fr;
                  location_id := location_id fr |})
    | Raise e => Raise e
    | OutOfFuel => OutOfFuel
    end.

(** A call that receives [perlin_large]. *)
Definition on_large {A : Type} (m : M Access A) : M Frame A :=
  fun fr =>
    match m {| self := perlin_large fr; subscripts := reads fr |} with
    | Ok (a, st) =>
        Ok (a, {| rng := rng fr;
                  perlin_large := self st;
                  perlin_medium := perlin_medium fr;
                  perlin_small := perlin_small fr;
                  reads := subscripts st;
                  rows := rows fr;
                  location_id := location_id fr |})
    | Raise e => Raise e
    | OutOfFuel => OutOfFuel
    end.

(** A call that receives [perlin_medium]. *)
Definition on_medium {A : Type} (m : M Access A) : M Frame A :=
  fun fr =>
    match m {| self := perlin_medium fr; subscripts := reads fr |} with
    | Ok (a, st) =>
        Ok (a, {| rng := rng fr;
                  perlin_large := perlin_large fr;
                  perlin_medium := self st;
                  perlin_small := perlin_small fr;
                  reads := subscripts st;
                  rows := rows fr;
                  location_id := location_id fr |})
    | Raise e => Raise e
    | OutOfFuel => OutOfFuel
    end.

(** A call that receives [perlin_small]. *)
Definition on_small {A : Type} (m : M Access A) : M Frame A :=
  fun fr =>
    match m {| self := perlin_small fr; subscripts := reads fr |} with
    | Ok (a, st) =>
        Ok (a, {| rng := rng fr;
                  perlin_large := perlin_large fr;
                  perlin_medium := perlin_medium fr;
                  perlin_small := self st;
                  reads := subscripts st;
                  rows := rows fr;
                  location_id := location_id fr |})
    | Raise e => Raise e
    | OutOfFuel => OutOfFuel
    end.

(** Lines 116-123: the three noise generators. *)
Definition make_perlins (seed : option Z)
  : M (rng_state G) (PerlinNoise * PerlinNoise * PerlinNoise) :=
  match seed with
  | Some s =>
      pl <- PerlinNoise_init (Some s) ;;
      pm <- PerlinNoise_init (Some (s + 1)%Z) ;;
      ps <- PerlinNoise_init (Some (s + 2)%Z) ;;
      ret (pl, pm, ps)
  | None =>
      pl <- PerlinNoise_init None ;;
      pm <- PerlinNoise_init None ;;
      ps <- PerlinNoise_init None ;;
      ret (pl, pm, ps)
  end.

(** Lines 133-165: from the coordinates to [base_value]. *)
Definition base_value (lat lon : Q) : M Frame Q :=
  let nx_large := lon * 0.05 in
  let ny_large := lat * 0.05 in
  let nx_medium := lon * 0.15 in
  let ny_medium := lat * 0.15 in
  let nx_small := lon * 0.5 in
  let ny_small := lat * 0.5 in
  large_scale <- on_large (multi_octave_noise nx_large ny_large 3 0.6 2.0) ;;
  medium_scale <- on_medium (multi_octave_noise nx_medium ny_medium 3 0.5 2.0) ;;
  small_scale <- on_small (multi_octave_noise nx_small ny_small 2 0.4 2.0) ;;
  let combined := large_scale * 0.6 + medium_scale * 0.3 + small_scale * 0.1 in
  ret ((combined + 1.0) / 2.0).

(** The six period values of a cell, intensities first. *)
Record Periods : Type := {
  period_1_intensity : Q;
  period_2_intensity : Q;
  period_3_intensity : Q;
  period_1_variance : Q;
  period_2_variance : Q;
  period_3_variance : Q
}.

(** Lines 167-175: intensities and variances of the three periods. *)
Definition periods (base_intensity base_value : Q) : M (rng_state G) Periods :=
  u1 <- random_uniform 0.9 1.1 ;;
  let period_1_intensity := base_intensity * base_value * u1 in
  u2 <- random_uniform 1.15 1.25 ;;
  let period_2_intensity := period_1_intensity * u2 in
  u3 <- random_uniform 1.2 1.35 ;;
  let period_3_intensity := period_2_intensity * u3 in
  w1 <- random_uniform 0.15 0.25 ;;
  let period_1_variance := period_1_intensity * w1 in
  w2 <- random_uniform 0.15 0.25 ;;
  let period_2_variance := period_2_intensity * w2 in
  w3 <- random_uniform 0.2 0.3 ;;
  let period_3_variance := period_3_intensity * w3 in
  ret {| period_1_intensity := period_1_intensity;
         period_2_intensity := period_2_intensity;
         period_3_intensity := period_3_intensity;
         period_1_variance := period_1_variance;
         period_2_variance := period_2_variance;
         period_3_variance := period_3_variance |}.

(** Line 179: [f"EUR_{hazard_prefix}_{location_id:06d}"]. *)
Definition location_name (hazard_type : string) (location_id : Z) : string :=
  let hazard_prefix := substring 0 4 (str_upper hazard_type) in
  ("EUR_" ++ hazard_prefix ++ "_" ++ format_06d location_id)%string.

Section Run.
Variables hazard_type unit : string.
Variables lat_min lat_max lon_min lon_max grid_spacing base_intensity : Q.

(** Lines 133-195: the body of the inner loop. *)
Definition cell (lat lon : Q) : M Frame Datatypes.unit :=
  b <- base_value lat lon ;;
  p <- with_random (periods base_intensity b) ;;
  fr <- get ;;
  let row :=
    {| HazardRecord.location_id := location_name hazard_type (location_id fr);
       HazardRecord.latitude := py_round lat 2;
       HazardRecord.longitude := py_round lon 2;
       HazardRecord.period_1_intensity_m := py_round (period_1_intensity p) 3;
       HazardRecord.period_1_variance := py_round (period_1_variance p) 3;
       HazardRecord.period_2_intensity_m := py_round (period_2_intensity p) 3;
       HazardRecord.period_2_variance := py_round (period_2_variance p) 3;
       HazardRecord.period_3_intensity_m := py_round (period_3_intensity p) 3;
       HazardRecord.period_3_variance := py_round (period_3_variance p) 3;
       HazardRecord.hazard_type := hazard_type;
       HazardRecord.unit := unit |} in
  put {| rng := rng fr;
         perlin_large := perlin_large fr;
         perlin_medium := perlin_medium fr;
         perlin_small := perlin_small fr;
         reads := reads fr;
         rows := rows fr ++ [row];
         location_id := location_id fr + 1 |}.

(** Lines 132-196: [while lon <= lon_max]. *)
Fixpoint while_lon (fuel : nat) (lat lon : Q) : M Frame Datatypes.unit :=
  match fuel with
  | O => out_of_fuel
  | S fuel' =>
      if Qle_bool lon lon_max then
        cell lat lon ;;
        while_lon fuel' lat (py_round (lon + grid_spacing) 2)
      else ret tt
  end.

(** Lines 130-198: [while lat <= lat_max]; every inner loop gets [n]. *)
Fixpoint while_lat (n fuel : nat) (lat : Q) : M Frame Datatypes.unit :=
  match fuel with
  | O => out_of_fuel
  | S fuel' =>
      if Qle_bool lat lat_max then
        while_lon n lat lon_min ;;
        while_lat n fuel' (py_round (lat + grid_spacing) 2)
      else ret tt
  end.

(** The function up to line 198; its result is the frame whose [rows] the
    CSV writer receives. *)
Definition generate_hazard_map (seed : option Z) (fuel : nat)
  : rng_state G -> exec Frame :=
  fun g =>
    match make_perlins seed g with
    | Ok ((pl, pm, ps), g') =>
        let fr := {| rng := g';
                     perlin_large := pl;
                     perlin_medium := pm;
                     perlin_small := ps;
                     reads := [];
                     rows := [];
                     location_id := 1 |} in
        match while_lat fuel fuel lat_min fr with
        | Ok (_, fr') => Ok fr'
        | Raise e => Raise e
        | OutOfFuel => OutOfFuel
        end
    | Raise e => Raise e
    | OutOfFuel => OutOfFuel
    end.
End Run.
End Walk.

Arguments Frame G : clear implicits.

(* ================================================================== *)
(** ** A concrete generator *)

(** A linear congruential generator: an instance of [PRNG] on which the
    definitions above can be run. *)
Definition lcg_next (s : Z) : Z := ((1103515245 * s + 12345) mod 2147483648)%Z.

Definition lcg_random (s : Z) : Q * Z :=
  (Qmake (lcg_next s) 2147483648, lcg_next s).

Definition lcg_randbelow (n : nat) (s : Z) : nat * Z :=
  (Z.to_nat (lcg_next s mod Z.of_nat n), lcg_next s).

Definition lcg : PRNG.
Proof.
  refine {| rng_state := Z;
            rng_seed := fun a => (a mod 2147483648)%Z;
            rng_random := lcg_random;
            rng_randbelow := lcg_randbelow |}.
  - abstract
      (intros s; unfold Qle, Qlt, lcg_random; cbn [fst Qnum Qden];
       pose proof (Z.mod_pos_bound (1103515245 * s + 12345) 2147483648 eq_refl)
         as Hb;
       fold (lcg_next s) in Hb; lia).
  - abstract
      (intros n s Hn; unfold lcg_randbelow; cbn [fst];
       pose proof (Z.mod_pos_bound (lcg_next s) (Z.of_nat n));
       lia).
Defined.

(** The frame with which [generate_hazard_map(..., seed=42)] enters its
    walk when [random] is the generator above. *)
Definition sample_frame : Frame lcg :=
  match make_perlins (G := lcg) (Some 42%Z) 0%Z with
  | Ok ((pl, pm, ps), g) =>
      {| rng := g; perlin_large := pl; perlin_medium := pm;
         perlin_small := ps; reads := []; rows := []; location_id := 1 |}
  | _ =>
      @Build_Frame lcg 0%Z {| permutation := [] |} {| permutation := [] |}
        {| permutation := [] |} [] [] 1
  end.

(** Its first noise object, about to receive a method call. *)
Definition sample_access : Access :=
  {| self := perlin_large sample_frame; subscripts := [] |}.

Unset Implicit Arguments.

(* ================================================================== *)
(** ** Predicates used in the statements *)

(** A subscript that falls inside the doubled table. *)
Definition in_table (i : Z) : Prop := (0 <= i <= 511)%Z.

(** The shape every constructed table has: 512 entries, all in 0..255. *)
Definition table_ok (p : list Z) : bool :=
  (List.length p =? 512)%nat
  && forallb (fun v => (0 <=? v)%Z && (v <=? 255)%Z) p.

Definition frame_ok {G : PRNG} (fr : Frame G) : bool :=
  table_ok (permutation (perlin_large fr))
  && table_ok (permutation (perlin_medium fr))
  && table_ok (permutation (perlin_small fr)).

(** The coordinates one [while c <= c_max: ...; c = round(c + spacing, 2)]
    loop visits; [None] when the fuel does not suffice. *)
Fixpoint axis (fuel : nat) (c c_max spacing : Q) : option (list Q) :=
  match fuel with
  | O => None
  | S fuel' =>
      if Qle_bool c c_max then
        option_map (cons c) (axis fuel' (py_round (c + spacing) 2) c_max spacing)
      else Some []
  end.







(** A method that hands its receiver back unchanged whenever it returns. *)
Definition keeps_self {A : Type} (m : M Access A) : Prop :=
  forall (st st' : Access) (a : A), m st = Ok (a, st') -> self st' = self st.

(** The frame [fr] after [idx] more subscripts have been logged. *)
Definition logged {G : PRNG} (fr : Frame G) (idx : list Z) : Frame G :=
  {| rng := rng fr;
     perlin_large := perlin_large fr;
     perlin_medium := perlin_medium fr;
     perlin_small := perlin_small fr;
     reads := reads fr ++ idx;
     rows := rows fr;
     location_id := location_id fr |}.

(** [fr'] is what a stretch of the walk makes of [fr] when it appends the
    rows [new]: the noise objects are the same, the counter has advanced by
    one per row, the identifiers are built from the successive counter
    values, and every table subscript logged on the way is in bounds. *)
Definition grows {G : PRNG} (hazard_type : string) (fr fr' : Frame G)
    (new : list HazardRecord.t) : Prop :=
  perlin_large fr' = perlin_large fr
  /\ perlin_medium fr' = perlin_medium fr
  /\ perlin_small fr' = perlin_small fr
  /\ rows fr' = rows fr ++ new
  /\ location_id fr' = (location_id fr + Z.of_nat (List.length new))%Z
  /\ map HazardRecord.location_id new
     = map (fun k => location_name hazard_type (location_id fr + Z.of_nat k))
           (seq 0 (List.length new))
  /\ exists idx : list Z, reads fr' = reads fr ++ idx /\ Forall in_table idx.

(* ================================================================== *)
(** ** The noise function *)

Section NoiseFacts.
Local Open Scope Q_scope.

Lemma Qsquare_nonneg (x : Q) : 0 <= x * x.
Proof. nra. Qed.

Lemma fade_nonneg (t : Q) : 0 <= t -> t <= 1 -> 0 <= fade t.
Proof.
  intros H0 H1. unfold fade.
  assert (0 <= t * t) by nra.
  assert (0 <= t * t * t) by nra.
  assert (0 <= t * (t * 6 - 15) + 10) by nra.
  nra.
Qed.

Lemma fade_flip (t : Q) : 1 - fade t == fade (1 - t).
Proof. unfold fade. ring. Qed.

Lemma fade_le_1 (t : Q) : 0 <= t -> t <= 1 -> fade t <= 1.
Proof.
  intros H0 H1.
  pose proof (fade_flip t) as E.
  pose proof (fade_nonneg (1 - t)) as H.
  lra.
Qed.

(** The weight [fade t] never moves the blended distance to the two
    neighbouring lattice lines above one half. *)
Lemma fade_balance (t : Q) :
  0 <= t -> t <= 1 -> t + fade t * (1 - 2 * t) <= 1 # 2.
Proof.
  intros H0 H1.
  assert (E : (1 # 2) - (t + fade t * (1 - 2 * t))
              == 2 * (((1 # 2) - t) * ((1 # 2) - t))
                 * (6 * ((t * (1 - t)) * (t * (1 - t))) + 2 * (t * (1 - t)) + 1))
    by (unfold fade; ring).
  assert (0 <= ((1 # 2) - t) * ((1 # 2) - t)) by apply Qsquare_nonneg.
  assert (0 <= t * (1 - t)) by (apply Qmult_le_0_compat; lra).
  assert (0 <= (t * (1 - t)) * (t * (1 - t))) by apply Qsquare_nonneg.
  assert (0 <= 2 * (((1 # 2) - t) * ((1 # 2) - t))
               * (6 * ((t * (1 - t)) * (t * (1 - t))) + 2 * (t * (1 - t)) + 1)).
  { apply Qmult_le_0_compat; lra. }
  lra.
Qed.

Lemma land_3_cases (z : Z) :
  (Z.land z 3 = 0 \/ Z.land z 3 = 1 \/ Z.land z 3 = 2 \/ Z.land z 3 = 3)%Z.
Proof.
  assert (E : Z.land z 3 = (z mod 4)%Z) by (apply (Z.land_ones z 2); lia).
  pose proof (Z.mod_pos_bound z 4 eq_refl). lia.
Qed.

(** The four values [grad] can take. *)
Lemma grad_cases (h : Z) (a b : Q) :
  grad h a b == a + b \/ grad h a b == - a + b \/ grad h a b == - a - b.
Proof.
  unfold grad.
  destruct (land_3_cases h) as [E | [E | [E | E]]]; rewrite E; cbn.
  - left. ring.
  - right. left. ring.
  - right. left. ring.
  - right. right. ring.
Qed.

Lemma grad_bounds (h : Z) (a b : Q) :
  - (Qabs a + Qabs b) <= grad h a b /\ grad h a b <= Qabs a + Qabs b.
Proof.
  pose proof (Qle_Qabs a). pose proof (Qle_Qabs b).
  pose proof (Qle_Qabs (- a)) as Ha. pose proof (Qle_Qabs (- b)) as Hb.
  rewrite Qabs_opp in Ha, Hb.
  destruct (grad_cases h a b) as [E | [E | E]]; rewrite E; lra.
Qed.

(** The interpolated corner values stay within [-1, 1] whatever the four
    corner hashes are. *)
Lemma corners_bound (aa ab ba bb : Z) (xf yf : Q) :
  0 <= xf -> xf < 1 -> 0 <= yf -> yf < 1 ->
  let u := fade xf in
  let v := fade yf in
  let x1 := lerp u (grad aa xf yf) (grad ba (xf - 1) yf) in
  let x2 := lerp u (grad ab xf (yf - 1)) (grad bb (xf - 1) (yf - 1)) in
  -1 <= lerp v x1 x2 /\ lerp v x1 x2 <= 1.
Proof.
  intros Hx0 Hx1 Hy0 Hy1 u v x1 x2.
  assert (Hu0 : 0 <= u) by (apply fade_nonneg; lra).
  assert (Hu1 : u <= 1) by (apply fade_le_1; lra).
  assert (Hv0 : 0 <= v) by (apply fade_nonneg; lra).
  assert (Hv1 : v <= 1) by (apply fade_le_1; lra).
  assert (Bu : xf + u * (1 - 2 * xf) <= 1 # 2) by (apply fade_balance; lra).
  assert (Bv : yf + v * (1 - 2 * yf) <= 1 # 2) by (apply fade_balance; lra).
  assert (Ax : Qabs xf == xf) by (apply Qabs_pos; lra).
  assert (Ay : Qabs yf == yf) by (apply Qabs_pos; lra).
  assert (Ax1 : Qabs (xf - 1) == 1 - xf).
  { rewrite Qabs_neg by lra. ring. }
  assert (Ay1 : Qabs (yf - 1) == 1 - yf).
  { rewrite Qabs_neg by lra. ring. }
  destruct (grad_bounds aa xf yf) as [L00 U00].
  destruct (grad_bounds ba (xf - 1) yf) as [L10 U10].
  destruct (grad_bounds ab xf (yf - 1)) as [L01 U01].
  destruct (grad_bounds bb (xf - 1) (yf - 1)) as [L11 U11].
  rewrite ?Ax, ?Ay, ?Ax1, ?Ay1 in L00, U00, L10, U10, L01, U01, L11, U11.
  subst x1 x2. unfold lerp.
  set (g00 := grad aa xf yf) in *.
  set (g10 := grad ba (xf - 1) yf) in *.
  set (g01 := grad ab xf (yf - 1)) in *.
  set (g11 := grad bb (xf - 1) (yf - 1)) in *.
  clearbody g00 g10 g01 g11 u v.
  assert (W00 : 0 <= (1 - v) * (1 - u)) by (apply Qmult_le_0_compat; lra).
  assert (W10 : 0 <= (1 - v) * u) by (apply Qmult_le_0_compat; lra).
  assert (W01 : 0 <= v * (1 - u)) by (apply Qmult_le_0_compat; lra).
  assert (W11 : 0 <= v * u) by (apply Qmult_le_0_compat; lra).
  assert (0 <= (1 - v) * (1 - u) * (xf + yf - g00))
    by (apply Qmult_le_0_compat; lra).
  assert (0 <= (1 - v) * (1 - u) * (g00 + (xf + yf)))
    by (apply Qmult_le_0_compat; lra).
  assert (0 <= (1 - v) * u * (1 - xf + yf - g10))
    by (apply Qmult_le_0_compat; lra).
  assert (0 <= (1 - v) * u * (g10 + (1 - xf + yf)))
    by (apply Qmult_le_0_compat; lra).
  assert (0 <= v * (1 - u) * (xf + (1 - yf) - g01))
    by (apply Qmult_le_0_compat; lra).
  assert (0 <= v * (1 - u) * (g01 + (xf + (1 - yf))))
    by (apply Qmult_le_0_compat; lra).
  assert (0 <= v * u * (1 - xf + (1 - yf) - g11))
    by (apply Qmult_le_0_compat; lra).
  assert (0 <= v * u * (g11 + (1 - xf + (1 - yf))))
    by (apply Qmult_le_0_compat; lra).
  split; lra.
Qed.

End NoiseFacts.

Section MonadFacts.
Variables S A B : Type.

Lemma bind_ok (m : M S A) (k : A -> M S B) (s s' : S) (a : A) :
  m s = Ok (a, s') -> bind m k s = k a s'.
Proof. intros E. unfold bind. now rewrite E. Qed.

Lemma bind_out_of_fuel (m : M S A) (k : A -> M S B) (s : S) :
  m s = OutOfFuel -> bind m k s = OutOfFuel.
Proof. intros E. unfold bind. now rewrite E. Qed.

End MonadFacts.

Section TableFacts.
Local Open Scope Z_scope.

Lemma land_255_range (z : Z) : 0 <= Z.land z 255 <= 255.
Proof.
  assert (E : Z.land z 255 = z mod 256) by (apply (Z.land_ones z 8); lia).
  pose proof (Z.mod_pos_bound z 256 eq_refl). lia.
Qed.

Lemma table_ok_length (p : list Z) :
  table_ok p = true -> List.length p = 512%nat.
Proof.
  unfold table_ok. intros H. apply andb_prop in H as [H _].
  now apply Nat.eqb_eq.
Qed.

Lemma table_ok_entries (p : list Z) (v : Z) :
  table_ok p = true -> In v p -> 0 <= v <= 255.
Proof.
  unfold table_ok. intros H Hin. apply andb_prop in H as [_ H].
  rewrite forallb_forall in H. specialize (H v Hin). lia.
Qed.

Lemma py_getitem_in_table (p : list Z) (i : Z) :
  table_ok p = true -> in_table i ->
  exists v, py_getitem p i = Some v /\ 0 <= v <= 255.
Proof.
  intros Hp Hi. unfold in_table in Hi. unfold py_getitem.
  replace (0 <=? i) with true by (symmetry; apply Z.leb_le; lia).
  destruct (nth_error p (Z.to_nat i)) as [v |] eqn:E.
  - exists v. split; [reflexivity |].
    apply (table_ok_entries p v Hp). eapply nth_error_In; eassumption.
  - apply nth_error_None in E. rewrite (table_ok_length _ Hp) in E. lia.
Qed.

Lemma subscript_ok (st : Access) (i : Z) :
  table_ok (permutation (self st)) = true -> in_table i ->
  exists v,
    subscript i st
    = Ok (v, {| self := self st; subscripts := subscripts st ++ [i] |})
    /\ 0 <= v <= 255.
Proof.
  intros Hp Hi.
  destruct (py_getitem_in_table _ _ Hp Hi) as (v & E & Hv).
  exists v. unfold subscript. rewrite E. now split.
Qed.

End TableFacts.

Section NoiseRuns.
Local Open Scope Q_scope.

Lemma fraction_range (x : Q) :
  0 <= x - inject_Z (Qfloor x) /\ x - inject_Z (Qfloor x) < 1.
Proof.
  pose proof (Qfloor_le x) as H1. pose proof (Qlt_floor x) as H2.
  rewrite inject_Z_plus in H2. change (inject_Z 1) with 1 in H2.
  split; lra.
Qed.

(** One evaluation of [noise] on a well-shaped table: it returns, leaves
    the receiver as it was, reads the table eight times inside its bounds,
    and its value lies in [-1, 1]. *)
Lemma noise_run (st : Access) (x y : Q) :
  table_ok (permutation (self st)) = true ->
  exists (v : Q) (idx : list Z),
    noise x y st
    = Ok (v, {| self := self st; subscripts := subscripts st ++ idx |})
    /\ Forall in_table idx /\ List.length idx = 8%nat
    /\ -1 <= v /\ v <= 1.
Proof.
  intros Hp. unfold noise.
  pose proof (land_255_range (Qfloor x)) as Hxi.
  pose proof (land_255_range (Qfloor y)) as Hyi.
  set (xi := Z.land (Qfloor x) 255) in *.
  set (yi := Z.land (Qfloor y) 255) in *.
  destruct (fraction_range x) as [Hx0 Hx1].
  destruct (fraction_range y) as [Hy0 Hy1].
  set (xf := x - inject_Z (Qfloor x)) in *.
  set (yf := y - inject_Z (Qfloor y)) in *.
  assert (I0 : in_table xi) by (unfold in_table; lia).
  assert (I1 : in_table (xi + 1)) by (unfold in_table; lia).
  destruct (subscript_ok st xi Hp I0) as (p0 & E1 & B1).
  rewrite (bind_ok _ _ _ _ _ _ _ _ E1).
  set (st1 := {| self := self st; subscripts := subscripts st ++ [xi] |}) in *.
  assert (I2 : in_table (p0 + yi)) by (unfold in_table; lia).
  destruct (@subscript_ok st1 (p0 + yi)%Z Hp I2) as (aa & E2 & _).
  rewrite (bind_ok _ _ _ _ _ _ _ _ E2). cbn [self subscripts] in *.
  match goal with |- context [bind _ _ ?s] => set (st2 := s) in * end.
  destruct (subscript_ok st2 xi Hp I0) as (p0' & E3 & B3).
  rewrite (bind_ok _ _ _ _ _ _ _ _ E3). cbn [self subscripts] in *.
  match goal with |- context [bind _ _ ?s] => set (st3 := s) in * end.
  assert (I4 : in_table (p0' + yi + 1)) by (unfold in_table; lia).
  destruct (@subscript_ok st3 (p0' + yi + 1)%Z Hp I4) as (ab & E4 & _).
  rewrite (bind_ok _ _ _ _ _ _ _ _ E4). cbn [self subscripts] in *.
  match goal with |- context [bind _ _ ?s] => set (st4 := s) in * end.
  destruct (@subscript_ok st4 (xi + 1)%Z Hp I1) as (p1 & E5 & B5).
  rewrite (bind_ok _ _ _ _ _ _ _ _ E5). cbn [self subscripts] in *.
  match goal with |- context [bind _ _ ?s] => set (st5 := s) in * end.
  assert (I6 : in_table (p1 + yi)) by (unfold in_table; lia).
  destruct (@subscript_ok st5 (p1 + yi)%Z Hp I6) as (ba & E6 & _).
  rewrite (bind_ok _ _ _ _ _ _ _ _ E6). cbn [self subscripts] in *.
  match goal with |- context [bind _ _ ?s] => set (st6 := s) in * end.
  destruct (@subscript_ok st6 (xi + 1)%Z Hp I1) as (p1' & E7 & B7).
  rewrite (bind_ok _ _ _ _ _ _ _ _ E7). cbn [self subscripts] in *.
  match goal with |- context [bind _ _ ?s] => set (st7 := s) in * end.
  assert (I8 : in_table (p1' + yi + 1)) by (unfold in_table; lia).
  destruct (@subscript_ok st7 (p1' + yi + 1)%Z Hp I8) as (bb & E8 & _).
  rewrite (bind_ok _ _ _ _ _ _ _ _ E8). cbn [self subscripts] in *.
  eexists.
  exists [xi; (p0 + yi)%Z; xi; (p0' + yi + 1)%Z;
          (xi + 1)%Z; (p1 + yi)%Z; (xi + 1)%Z; (p1' + yi + 1)%Z].
  split.
  - unfold ret. subst st1 st2 st3 st4 st5 st6 st7. cbn [self subscripts].
    rewrite <- !app_assoc. reflexivity.
  - split; [repeat (apply Forall_cons; [assumption |]); apply Forall_nil |].
    split; [reflexivity |].
    apply corners_bound; assumption.
Qed.

End NoiseRuns.

Section OctaveFacts.
Local Open Scope Q_scope.

(** The loop of [multi_octave_noise]: with a positive persistence the
    running total never leaves [-max_value, max_value], and one iteration
    is enough to make [max_value] positive. *)
Lemma octave_loop_run (x y persistence lacunarity : Q) (n : nat) :
  0 < persistence ->
  forall (total frequency amplitude max_value : Q) (st : Access),
    table_ok (permutation (self st)) = true ->
    0 < amplitude -> 0 <= max_value ->
    - max_value <= total -> total <= max_value ->
    exists (total' max_value' : Q) (idx : list Z),
      octave_loop n x y persistence lacunarity
        total frequency amplitude max_value st
      = Ok ((total', max_value'),
            {| self := self st; subscripts := subscripts st ++ idx |})
      /\ Forall in_table idx
      /\ - max_value' <= total' /\ total' <= max_value'
      /\ max_value <= max_value'
      /\ (n <> O -> 0 < max_value').
Proof.
  intros Hpers. induction n as [| n IH];
    intros total frequency amplitude max_value st Hp Ha Hm Hlo Hhi.
  - exists total, max_value, []. cbn [octave_loop]. unfold ret.
    rewrite app_nil_r. destruct st as [s l]. cbn [self subscripts].
    repeat split; try assumption; try lra; try apply Forall_nil.
    intros H. now elim H.
  - cbn [octave_loop].
    destruct (noise_run st (x * frequency) (y * frequency) Hp)
      as (v & idx1 & E & Hidx1 & _ & Hv0 & Hv1).
    rewrite (bind_ok _ _ _ _ _ _ _ _ E).
    set (st1 := {| self := self st; subscripts := subscripts st ++ idx1 |}) in *.
    assert (Hva : - amplitude <= v * amplitude /\ v * amplitude <= amplitude).
    { assert (0 <= (1 - v) * amplitude) by (apply Qmult_le_0_compat; lra).
      assert (0 <= (v + 1) * amplitude) by (apply Qmult_le_0_compat; lra).
      split; lra. }
    assert (Hap : 0 < amplitude * persistence)
      by (apply Qmult_lt_0_compat; assumption).
    destruct (IH (total + v * amplitude) (frequency * lacunarity)
                (amplitude * persistence) (max_value + amplitude) st1)
      as (t' & m' & idx2 & E2 & Hidx2 & Hlo' & Hhi' & Hmono & _);
      try (cbn [st1 self]; assumption); try lra.
    exists t', m', (idx1 ++ idx2). rewrite E2. subst st1.
    cbn [self subscripts]. rewrite <- app_assoc.
    repeat split; try assumption; try lra.
    apply Forall_app. now split.
Qed.

(** A call of [multi_octave_noise] with at least one octave and a positive
    persistence: it returns, reads the table only inside its bounds, leaves
    the receiver untouched and yields a value in [-1, 1]. *)
Lemma multi_octave_noise_run (st : Access) (x y : Q) (octaves : Z)
    (persistence lacunarity : Q) :
  table_ok (permutation (self st)) = true ->
  (0 < octaves)%Z -> 0 < persistence ->
  exists (v : Q) (idx : list Z),
    multi_octave_noise x y octaves persistence lacunarity st
    = Ok (v, {| self := self st; subscripts := subscripts st ++ idx |})
    /\ Forall in_table idx /\ -1 <= v /\ v <= 1.
Proof.
  intros Hp Hoct Hpers. unfold multi_octave_noise.
  destruct (octave_loop_run x y persistence lacunarity (Z.to_nat octaves)
              Hpers 0 1 1 0 st Hp)
    as (t & m & idx & E & Hidx & Hlo & Hhi & _ & Hpos); try lra.
  assert (Hm : 0 < m) by (apply Hpos; lia).
  rewrite (bind_ok _ _ _ _ _ _ _ _ E).
  unfold py_truediv.
  destruct (Qeq_bool m 0) eqn:Ez.
  - apply Qeq_bool_iff in Ez. lra.
  - exists (t / m), idx. unfold ret. repeat split; try assumption.
    + apply Qle_shift_div_l; [assumption | lra].
    + apply Qle_shift_div_r; [assumption | lra].
Qed.


End OctaveFacts.

(* ================================================================== *)
(** ** Shuffling and the constructor *)

Section ListSet.
Variable A : Type.
Implicit Types (l : list A) (i j : nat) (v d : A).

Lemma list_set_length l i v : List.length (list_set l i v) = List.length l.
Proof.
  revert i. induction l as [| h t IH]; intros [| i]; cbn; auto.
Qed.

Lemma nth_list_set_same l i v d :
  (i < List.length l)%nat -> nth i (list_set l i v) d = v.
Proof.
  revert i. induction l as [| h t IH]; intros [| i] Hi; cbn in *;
    try lia; auto.
  apply IH. lia.
Qed.

Lemma nth_list_set_other l i j v d :
  i <> j -> nth j (list_set l i v) d = nth j l d.
Proof.
  revert i j. induction l as [| h t IH]; intros [| i] [| j] Hij; cbn;
    try reflexivity; try congruence.
  apply IH. congruence.
Qed.

(** Overwriting a cell trades the old content for the new one. *)
Lemma list_set_exchange l i v d :
  (i < List.length l)%nat ->
  Permutation (nth i l d :: list_set l i v) (v :: l).
Proof.
  revert i. induction l as [| h t IH]; intros [| i] Hi; cbn in *; try lia.
  - apply perm_swap.
  - eapply perm_trans; [apply perm_swap |].
    eapply perm_trans; [apply perm_skip, IH; lia |].
    apply perm_swap.
Qed.

(** The tuple assignment [x[i], x[j] = x[j], x[i]] permutes the list. *)
Lemma swap_permutation l i j d :
  (i < List.length l)%nat -> (j < List.length l)%nat ->
  Permutation l (list_set (list_set l i (nth j l d)) j (nth i l d)).
Proof.
  intros Hi Hj.
  set (l1 := list_set l i (nth j l d)).
  assert (H1 : Permutation (nth i l d :: l1) (nth j l d :: l))
    by (apply list_set_exchange; assumption).
  assert (Hj1 : (j < List.length l1)%nat)
    by (unfold l1; rewrite list_set_length; assumption).
  assert (E : nth j l1 d = nth j l d).
  { unfold l1. destruct (Nat.eq_dec i j) as [-> | Hne].
    - apply nth_list_set_same; assumption.
    - apply nth_list_set_other; assumption. }
  pose proof (list_set_exchange l1 j (nth i l d) d Hj1) as H2.
  rewrite E in H2.
  apply Permutation_cons_inv with (a := nth j l d).
  eapply perm_trans; [symmetry; exact H1 |]. symmetry. exact H2.
Qed.

End ListSet.

Section ShuffleFacts.
Context (G : PRNG).
Local Open Scope nat_scope.

Lemma shuffle_from_run (i : nat) :
  forall (x : list Z) (s : rng_state G),
    (i < List.length x)%nat ->
    exists (p : list Z) (s' : rng_state G),
      shuffle_from i x s = Ok (p, s') /\ Permutation x p.
Proof.
  induction i as [| i IH]; intros x s Hi.
  - exists x, s. split; [reflexivity | apply Permutation_refl].
  - cbn [shuffle_from]. unfold bind, randbelow.
    destruct (rng_randbelow G (S i + 1) s) as [j s1] eqn:Ej.
    pose proof (@rng_randbelow_range G (S i + 1) s) as Hj.
    rewrite Ej in Hj. cbn [fst] in Hj.
    set (x' := list_set (list_set x (S i) (nth j x 0%Z)) j (nth (S i) x 0%Z)).
    assert (Hperm : Permutation x x')
      by (apply swap_permutation; lia).
    destruct (IH x' s1) as (p & s' & E & Hp).
    { unfold x'. rewrite !list_set_length. lia. }
    exists p, s'. split; [exact E |].
    eapply perm_trans; eassumption.
Qed.

Lemma random_shuffle_run (x : list Z) (s : rng_state G) :
  exists (p : list Z) (s' : rng_state G),
    random_shuffle x s = Ok (p, s') /\ Permutation x p.
Proof.
  unfold random_shuffle. destruct x as [| h t].
  - exists [], s. split; [reflexivity | apply Permutation_refl].
  - apply shuffle_from_run. cbn. lia.
Qed.

Lemma py_range_NoDup (n : nat) : NoDup (py_range n).
Proof.
  unfold py_range. apply Finite.Injective_map_NoDup.
  - intros a b. apply Nat2Z.inj.
  - apply seq_NoDup.
Qed.

Lemma py_range_In (n : nat) (v : Z) :
  In v (py_range n) <-> (0 <= v < Z.of_nat n)%Z.
Proof.
  unfold py_range. rewrite in_map_iff. split.
  - intros (k & <- & Hk). apply in_seq in Hk. lia.
  - intros Hv. exists (Z.to_nat v). split; [lia |]. apply in_seq. lia.
Qed.

(** What [__init__] leaves behind: a shuffle of 0..255 followed by a copy
    of itself. *)
Lemma PerlinNoise_init_run (seed : option Z) (g : rng_state G) :
  exists (p : list Z) (g' : rng_state G),
    PerlinNoise_init seed g = Ok ({| permutation := p ++ p |}, g')
    /\ Permutation (py_range 256) p.
Proof.
  unfold PerlinNoise_init.
  set (g0 := match seed with Some a => rng_seed G a | None => g end).
  destruct (random_shuffle_run (py_range 256) g0) as (p & g' & E & Hp).
  exists p, g'. split; [| exact Hp].
  assert (E0 : match seed with
               | Some a => random_seed a
               | None => ret tt
               end g = Ok (tt, g0))
    by (destruct seed; reflexivity).
  rewrite (bind_ok _ _ _ _ _ _ _ _ E0).
  rewrite (bind_ok _ _ _ _ _ _ _ _ E).
  reflexivity.
Qed.

Lemma shuffled_table_ok (p : list Z) :
  Permutation (py_range 256) p -> table_ok (p ++ p) = true.
Proof.
  intros Hp. unfold table_ok. apply andb_true_intro. split.
  - apply Nat.eqb_eq. rewrite length_app.
    rewrite <- (Permutation_length Hp). reflexivity.
  - apply forallb_forall. intros v Hv.
    assert (Hin : In v (py_range 256)).
    { apply in_app_or in Hv.
      destruct Hv as [Hv | Hv];
        apply (Permutation_in _ (Permutation_sym Hp)); exact Hv. }
    apply py_range_In in Hin. lia.
Qed.

End ShuffleFacts.

(* ================================================================== *)
(** ** Rounding *)

Section RoundingFacts.
Local Open Scope Q_scope.




Lemma round_half_even_mono (p q : Q) :
  p <= q -> (round_half_even p <= round_half_even q)%Z.
Proof.
  intros Hpq.
  pose proof (Qfloor_resp_le _ _ Hpq) as Hf.
  destruct (Z.eq_dec (Qfloor p) (Qfloor q)) as [E | Hne].
  - unfold round_half_even. rewrite <- E.
    destruct (Qcompare_spec (p - inject_Z (Qfloor p)) (1 # 2)) as [Ep | Ep | Ep];
      destruct (Qcompare_spec (q - inject_Z (Qfloor p)) (1 # 2)) as [Eq | Eq | Eq];
      try (destruct (Z.even (Qfloor p))); try lia; try lra.
  - assert (Hlt : (Qfloor p + 1 <= Qfloor q)%Z) by lia.
    assert ((round_half_even p <= Qfloor p + 1)%Z).
    { unfold round_half_even.
      destruct (p - inject_Z (Qfloor p) ?= 1 # 2);
        try (destruct (Z.even (Qfloor p))); lia. }
    assert ((Qfloor q <= round_half_even q)%Z).
    { unfold round_half_even.
      destruct (q - inject_Z (Qfloor q) ?= 1 # 2);
        try (destruct (Z.even (Qfloor q))); lia. }
    lia.
Qed.




Lemma py_round_mono (x y : Q) (ndigits : nat) :
  x <= y -> py_round x ndigits <= py_round y ndigits.
Proof.
  intros Hxy. unfold py_round.
  set (scale := (10 ^ Z.of_nat ndigits)%Z).
  assert (Hs : (0 < scale)%Z) by (apply Z.pow_pos_nonneg; lia).
  unfold Qle. cbn [Qnum Qden].
  apply Z.mul_le_mono_nonneg_r; [lia |].
  apply round_half_even_mono.
  apply Qmult_le_compat_r; [assumption |].
  change 0 with (inject_Z 0). rewrite <- Zle_Qle. lia.
Qed.



End RoundingFacts.

(* ================================================================== *)
(** ** One axis of the grid *)

Section AxisFacts.
Local Open Scope Q_scope.
Variables c_max spacing : Q.

Lemma axis_more_fuel (fuel : nat) :
  forall (fuel' : nat) (c : Q) (l : list Q),
    (fuel <= fuel')%nat ->
    axis fuel c c_max spacing = Some l -> axis fuel' c c_max spacing = Some l.
Proof.
  induction fuel as [| fuel IH]; intros fuel' c l Hle E; [discriminate |].
  destruct fuel' as [| fuel']; [lia |].
  cbn [axis] in *. destruct (Qle_bool c c_max); [| exact E].
  destruct (axis fuel (py_round (c + spacing) 2) c_max spacing) as [t |] eqn:Et;
    [| discriminate].
  rewrite (IH fuel' _ t); [exact E | lia | exact Et].
Qed.



End AxisFacts.


(* ================================================================== *)
(** ** The grid walk *)

Section CellFacts.
Context (G : PRNG).
Local Open Scope Q_scope.

Lemma frame_ok_tables (fr : Frame G) :
  frame_ok fr = true ->
  table_ok (permutation (perlin_large fr)) = true
  /\ table_ok (permutation (perlin_medium fr)) = true
  /\ table_ok (permutation (perlin_small fr)) = true.
Proof.
  unfold frame_ok. intros H.
  apply andb_prop in H as [H H3]. apply andb_prop in H as [H1 H2]. auto.
Qed.

Lemma logged_logged (fr : Frame G) (i1 i2 : list Z) :
  logged (logged fr i1) i2 = logged fr (i1 ++ i2).
Proof. unfold logged. cbn. now rewrite app_assoc. Qed.

Lemma on_large_run (fr : Frame G) (x y : Q) (octaves : Z)
    (persistence lacunarity : Q) :
  table_ok (permutation (perlin_large fr)) = true ->
  (0 < octaves)%Z -> 0 < persistence ->
  exists (v : Q) (idx : list Z),
    on_large (multi_octave_noise x y octaves persistence lacunarity) fr
    = Ok (v, logged fr idx)
    /\ Forall in_table idx /\ -1 <= v /\ v <= 1.
Proof.
  intros Hp Ho Hs. unfold on_large.
  destruct (multi_octave_noise_run
              {| self := perlin_large fr; subscripts := reads fr |}
              x y octaves persistence lacunarity Hp Ho Hs)
    as (v & idx & E & Hidx & Hv).
  rewrite E. exists v, idx. split; [reflexivity | now split].
Qed.

Lemma on_medium_run (fr : Frame G) (x y : Q) (octaves : Z)
    (persistence lacunarity : Q) :
  table_ok (permutation (perlin_medium fr)) = true ->
  (0 < octaves)%Z -> 0 < persistence ->
  exists (v : Q) (idx : list Z),
    on_medium (multi_octave_noise x y octaves persistence lacunarity) fr
    = Ok (v, logged fr idx)
    /\ Forall in_table idx /\ -1 <= v /\ v <= 1.
Proof.
  intros Hp Ho Hs. unfold on_medium.
  destruct (multi_octave_noise_run
              {| self := perlin_medium fr; subscripts := reads fr |}
              x y octaves persistence lacunarity Hp Ho Hs)
    as (v & idx & E & Hidx & Hv).
  rewrite E. exists v, idx. split; [reflexivity | now split].
Qed.

Lemma on_small_run (fr : Frame G) (x y : Q) (octaves : Z)
    (persistence lacunarity : Q) :
  table_ok (permutation (perlin_small fr)) = true ->
  (0 < octaves)%Z -> 0 < persistence ->
  exists (v : Q) (idx : list Z),
    on_small (multi_octave_noise x y octaves persistence lacunarity) fr
    = Ok (v, logged fr idx)
    /\ Forall in_table idx /\ -1 <= v /\ v <= 1.
Proof.
  intros Hp Ho Hs. unfold on_small.
  destruct (multi_octave_noise_run
              {| self := perlin_small fr; subscripts := reads fr |}
              x y octaves persistence lacunarity Hp Ho Hs)
    as (v & idx & E & Hidx & Hv).
  rewrite E. exists v, idx. split; [reflexivity | now split].
Qed.

(** Lines 133-165 on a frame with well-shaped tables. *)
Lemma base_value_run (fr : Frame G) (lat lon : Q) :
  frame_ok fr = true ->
  exists (b : Q) (idx : list Z),
    base_value lat lon fr = Ok (b, logged fr idx)
    /\ Forall in_table idx /\ 0 <= b /\ b <= 1.
Proof.
  intros Hok. destruct (frame_ok_tables fr Hok) as (Hl & Hm & Hs).
  unfold base_value.
  destruct (on_large_run fr (lon * 0.05) (lat * 0.05) 3 0.6 2.0 Hl)
    as (a & i1 & E1 & Hi1 & Ha0 & Ha1); [lia | reflexivity |].
  rewrite (bind_ok _ _ _ _ _ _ _ _ E1).
  destruct (on_medium_run (logged fr i1) (lon * 0.15) (lat * 0.15) 3 0.5 2.0 Hm)
    as (b & i2 & E2 & Hi2 & Hb0 & Hb1); [lia | reflexivity |].
  rewrite (bind_ok _ _ _ _ _ _ _ _ E2).
  destruct (on_small_run (logged (logged fr i1) i2)
              (lon * 0.5) (lat * 0.5) 2 0.4 2.0 Hs)
    as (c & i3 & E3 & Hi3 & Hc0 & Hc1); [lia | reflexivity |].
  rewrite (bind_ok _ _ _ _ _ _ _ _ E3).
  exists ((a * 0.6 + b * 0.3 + c * 0.1 + 1.0) / 2.0), (i1 ++ i2 ++ i3).
  rewrite !logged_logged. split; [reflexivity |].
  split; [repeat (apply Forall_app; split); assumption |].
  split.
  - apply Qle_shift_div_l; [reflexivity | lra].
  - apply Qle_shift_div_r; [reflexivity | lra].
Qed.

Lemma random_uniform_run (a b : Q) (g : rng_state G) :
  a <= b ->
  exists u : Q,
    random_uniform a b g = Ok (u, snd (rng_random G g)) /\ a <= u /\ u <= b.
Proof.
  intros Hab. unfold random_uniform, bind, random_random, ret.
  destruct (rng_random_range G g) as [H0 H1].
  destruct (rng_random G g) as [r g']. cbn [fst snd] in *.
  exists (a + (b - a) * r). split; [reflexivity |].
  assert (0 <= (b - a) * r) by (apply Qmult_le_0_compat; lra).
  assert (0 <= (b - a) * (1 - r)) by (apply Qmult_le_0_compat; lra).
  split; lra.
Qed.

(** Lines 167-175: the six draws always succeed, and on a non-negative
    base the intensities do not decrease from one period to the next. *)
Lemma periods_run (base_intensity b : Q) (g : rng_state G) :
  exists (p : Periods) (g' : rng_state G),
    periods base_intensity b g = Ok (p, g')
    /\ (0 <= base_intensity -> 0 <= b ->
        0 <= period_1_intensity p
        /\ period_1_intensity p <= period_2_intensity p
        /\ period_2_intensity p <= period_3_intensity p).
Proof.
  unfold periods.
  destruct (random_uniform_run 0.9 1.1 g) as (u1 & E1 & L1 & _);
    [discriminate |].
  rewrite (bind_ok _ _ _ _ _ _ _ _ E1). set (g1 := snd (rng_random G g)).
  destruct (random_uniform_run 1.15 1.25 g1) as (u2 & E2 & L2 & _);
    [discriminate |].
  rewrite (bind_ok _ _ _ _ _ _ _ _ E2). set (g2 := snd (rng_random G g1)).
  destruct (random_uniform_run 1.2 1.35 g2) as (u3 & E3 & L3 & _);
    [discriminate |].
  rewrite (bind_ok _ _ _ _ _ _ _ _ E3). set (g3 := snd (rng_random G g2)).
  destruct (random_uniform_run 0.15 0.25 g3) as (w1 & E4 & _);
    [discriminate |].
  rewrite (bind_ok _ _ _ _ _ _ _ _ E4). set (g4 := snd (rng_random G g3)).
  destruct (random_uniform_run 0.15 0.25 g4) as (w2 & E5 & _);
    [discriminate |].
  rewrite (bind_ok _ _ _ _ _ _ _ _ E5). set (g5 := snd (rng_random G g4)).
  destruct (random_uniform_run 0.2 0.3 g5) as (w3 & E6 & _);
    [discriminate |].
  rewrite (bind_ok _ _ _ _ _ _ _ _ E6).
  eexists. eexists. split; [reflexivity |].
  intros Hbi Hb. cbn [period_1_intensity period_2_intensity period_3_intensity].
  assert (H0 : 0 <= base_intensity * b) by (apply Qmult_le_0_compat; assumption).
  assert (H1 : 0 <= base_intensity * b * u1)
    by (apply Qmult_le_0_compat; [assumption | lra]).
  assert (H2 : 0 <= base_intensity * b * u1 * (u2 - 1))
    by (apply Qmult_le_0_compat; [assumption | lra]).
  assert (H3 : 0 <= base_intensity * b * u1 * u2)
    by (apply Qmult_le_0_compat; [assumption | lra]).
  assert (H4 : 0 <= base_intensity * b * u1 * u2 * (u3 - 1))
    by (apply Qmult_le_0_compat; [assumption | lra]).
  repeat split; lra.
Qed.

End CellFacts.

Section WalkFacts.
Context (G : PRNG).
Variables hazard_type unit : string.
Variables lat_min lat_max lon_min lon_max grid_spacing base_intensity : Q.
Local Open Scope Q_scope.

Lemma grows_refl (fr : Frame G) : grows hazard_type fr fr [].
Proof.
  unfold grows. cbn. rewrite app_nil_r, Z.add_0_r.
  repeat split; try reflexivity.
  exists []. rewrite app_nil_r. split; [reflexivity | apply Forall_nil].
Qed.

Lemma map_seq_shift {A : Type} (f : nat -> A) (a n : nat) :
  map f (seq a n) = map (fun k => f (a + k)%nat) (seq 0 n).
Proof.
  revert f a. induction n as [| n IH]; intros f a; [reflexivity |].
  cbn [seq map]. rewrite Nat.add_0_r. f_equal.
  rewrite (IH f (S a)), (IH (fun k => f (a + k)%nat) 1%nat).
  apply map_ext. intros k. f_equal. lia.
Qed.

Lemma grows_trans (fr fr1 fr2 : Frame G) (n1 n2 : list HazardRecord.t) :
  grows hazard_type fr fr1 n1 -> grows hazard_type fr1 fr2 n2 ->
  grows hazard_type fr fr2 (n1 ++ n2).
Proof.
  intros (L1 & M1 & S1 & R1 & C1 & I1 & idx1 & D1 & F1)
         (L2 & M2 & S2 & R2 & C2 & I2 & idx2 & D2 & F2).
  unfold grows. rewrite length_app, Nat2Z.inj_add.
  repeat split; try congruence.
  - rewrite R2, R1. now rewrite app_assoc.
  - rewrite C2, C1. lia.
  - rewrite map_app, seq_app, map_app, I1, I2. f_equal.
    rewrite (map_seq_shift _ (0 + List.length n1)). apply map_ext. intros k.
    f_equal. rewrite C1. lia.
  - exists (idx1 ++ idx2). rewrite D2, D1, app_assoc. split; [reflexivity |].
    apply Forall_app. now split.
Qed.

Lemma grows_frame_ok (fr fr' : Frame G) (new : list HazardRecord.t) :
  grows hazard_type fr fr' new -> frame_ok fr = true -> frame_ok fr' = true.
Proof.
  intros (L & M & S & _) H. unfold frame_ok in *. now rewrite L, M, S.
Qed.

(** One pass through the body of the inner loop. *)
Lemma cell_run (fr : Frame G) (lat lon : Q) :
  frame_ok fr = true ->
  exists (fr' : Frame G) (row : HazardRecord.t),
    cell hazard_type unit base_intensity lat lon fr = Ok (tt, fr')
    /\ grows hazard_type fr fr' [row].
Proof.
  intros Hok. unfold cell.
  destruct (base_value_run G fr lat lon Hok) as (b & idx & E1 & Hidx & _).
  rewrite (bind_ok _ _ _ _ _ _ _ _ E1).
  destruct (periods_run G base_intensity b (rng fr)) as (p & g' & E2 & _).
  assert (E2' : with_random (periods base_intensity b) (logged fr idx)
                = Ok (p, {| rng := g';
                            perlin_large := perlin_large fr;
                            perlin_medium := perlin_medium fr;
                            perlin_small := perlin_small fr;
                            reads := reads fr ++ idx;
                            rows := rows fr;
                            location_id := location_id fr |})).
  { unfold with_random. cbn [logged rng]. rewrite E2. reflexivity. }
  rewrite (bind_ok _ _ _ _ _ _ _ _ E2').
  unfold bind, get, put.
  eexists. eexists. split; [reflexivity |].
  unfold grows.
  cbn [perlin_large perlin_medium perlin_small rows location_id reads
       List.length map seq HazardRecord.location_id].
  rewrite Z.add_0_r.
  repeat split. exists idx. now split.
Qed.

Lemma while_lon_run (fuel : nat) :
  forall (lat lon : Q) (fr : Frame G) (lons : list Q),
    frame_ok fr = true ->
    axis fuel lon lon_max grid_spacing = Some lons ->
    exists (fr' : Frame G) (new : list HazardRecord.t),
      while_lon hazard_type unit lon_max grid_spacing base_intensity
        fuel lat lon fr = Ok (tt, fr')
      /\ grows hazard_type fr fr' new
      /\ List.length new = List.length lons.
Proof.
  induction fuel as [| fuel IH]; intros lat lon fr lons Hok E; [discriminate |].
  cbn [axis while_lon] in *.
  destruct (Qle_bool lon lon_max).
  - destruct (axis fuel (py_round (lon + grid_spacing) 2) lon_max grid_spacing)
      as [t |] eqn:Et; [| discriminate].
    injection E as <-.
    destruct (cell_run fr lat lon Hok) as (fr1 & row & E1 & G1).
    rewrite (bind_ok _ _ _ _ _ _ _ _ E1).
    destruct (IH lat (py_round (lon + grid_spacing) 2) fr1 t
                (grows_frame_ok _ _ _ G1 Hok) Et) as (fr2 & new & E2 & G2 & Hlen).
    exists fr2, ([row] ++ new). split; [exact E2 |]. split.
    + eapply grows_trans; eassumption.
    + cbn. now rewrite Hlen.
  - injection E as <-. exists fr, []. split; [reflexivity |].
    split; [apply grows_refl | reflexivity].
Qed.

Lemma while_lon_starves (fuel : nat) :
  forall (lat lon : Q) (fr : Frame G),
    frame_ok fr = true ->
    axis fuel lon lon_max grid_spacing = None ->
    while_lon hazard_type unit lon_max grid_spacing base_intensity
      fuel lat lon fr = OutOfFuel.
Proof.
  induction fuel as [| fuel IH]; intros lat lon fr Hok E; [reflexivity |].
  cbn [axis while_lon] in *.
  destruct (Qle_bool lon lon_max); [| discriminate].
  destruct (axis fuel (py_round (lon + grid_spacing) 2) lon_max grid_spacing)
    as [t |] eqn:Et; [discriminate |].
  destruct (cell_run fr lat lon Hok) as (fr1 & row & E1 & G1).
  rewrite (bind_ok _ _ _ _ _ _ _ _ E1).
  apply IH; [exact (grows_frame_ok _ _ _ G1 Hok) | exact Et].
Qed.

Lemma while_lat_run (n : nat) (lons : list Q) (fuel : nat) :
  axis n lon_min lon_max grid_spacing = Some lons ->
  forall (lat : Q) (fr : Frame G) (lats : list Q),
    frame_ok fr = true ->
    axis fuel lat lat_max grid_spacing = Some lats ->
    exists (fr' : Frame G) (new : list HazardRecord.t),
      while_lat hazard_type unit lat_max lon_min lon_max grid_spacing
        base_intensity n fuel lat fr = Ok (tt, fr')
      /\ grows hazard_type fr fr' new
      /\ List.length new = (List.length lats * List.length lons)%nat.
Proof.
  intros Elon.
  induction fuel as [| fuel IH]; intros lat fr lats Hok E; [discriminate |].
  cbn [axis while_lat] in *.
  destruct (Qle_bool lat lat_max).
  - destruct (axis fuel (py_round (lat + grid_spacing) 2) lat_max grid_spacing)
      as [t |] eqn:Et; [| discriminate].
    injection E as <-.
    destruct (while_lon_run n lat lon_min fr lons Hok Elon)
      as (fr1 & new1 & E1 & G1 & Hlen1).
    rewrite (bind_ok _ _ _ _ _ _ _ _ E1).
    destruct (IH (py_round (lat + grid_spacing) 2) fr1 t
                (grows_frame_ok _ _ _ G1 Hok) Et) as (fr2 & new2 & E2 & G2 & Hlen2).
    exists fr2, (new1 ++ new2). split; [exact E2 |]. split.
    + eapply grows_trans; eassumption.
    + rewrite length_app, Hlen1, Hlen2. cbn. lia.
  - injection E as <-. exists fr, []. split; [reflexivity |].
    split; [apply grows_refl | reflexivity].
Qed.


End WalkFacts.

(* ================================================================== *)
(** ** Identifiers *)

Section DigitFacts.
Local Open Scope N_scope.







End DigitFacts.

Section StringFacts.
Local Open Scope string_scope.






















End StringFacts.

(* ================================================================== *)
(** ** The noise objects are only read *)

Section SelfFacts.

Lemma keeps_self_ret (A : Type) (a : A) : keeps_self (ret a).
Proof. intros st st' b E. unfold ret in E. now injection E as _ <-. Qed.

Lemma keeps_self_raise (A : Type) (e : exn) : keeps_self (@raise Access A e).
Proof. intros st st' b E. discriminate. Qed.

Lemma keeps_self_bind (A B : Type) (m : M Access A) (k : A -> M Access B) :
  keeps_self m -> (forall a, keeps_self (k a)) -> keeps_self (bind m k).
Proof.
  intros Hm Hk st st' b E. unfold bind in E.
  destruct (m st) as [[a st1] | e |] eqn:Em; try discriminate.
  rewrite (Hk a st1 st' b E). exact (Hm st st1 a Em).
Qed.

Lemma keeps_self_subscript (i : Z) : keeps_self (subscript i).
Proof.
  intros st st' v E. unfold subscript in E.
  destruct (py_getitem (permutation (self st)) i); [| discriminate].
  now injection E as _ <-.
Qed.

Lemma keeps_self_truediv (a b : Q) : keeps_self (py_truediv a b).
Proof.
  unfold py_truediv. destruct (Qeq_bool b 0);
    [apply keeps_self_raise | apply keeps_self_ret].
Qed.

Lemma noise_keeps_self (x y : Q) : keeps_self (noise x y).
Proof.
  unfold noise.
  repeat (apply keeps_self_bind; [apply keeps_self_subscript | intros ?]).
  apply keeps_self_ret.
Qed.

Lemma octave_loop_keeps_self (x y persistence lacunarity : Q) (n : nat) :
  forall total frequency amplitude max_value : Q,
    keeps_self (octave_loop n x y persistence lacunarity
                  total frequency amplitude max_value).
Proof.
  induction n as [| n IH]; intros total frequency amplitude max_value;
    cbn [octave_loop].
  - apply keeps_self_ret.
  - apply keeps_self_bind; [apply noise_keeps_self | intros v; apply IH].
Qed.

Lemma multi_octave_noise_keeps_self (x y : Q) (octaves : Z)
    (persistence lacunarity : Q) :
  keeps_self (multi_octave_noise x y octaves persistence lacunarity).
Proof.
  unfold multi_octave_noise.
  apply keeps_self_bind; [apply octave_loop_keeps_self |].
  intros [total max_value]. apply keeps_self_truediv.
Qed.

End SelfFacts.

(* ================================================================== *)
(** ** Whole runs *)

Section RunFacts.
Context (G : PRNG).
Variables hazard_type unit : string.
Variables lat_min lat_max lon_min lon_max grid_spacing base_intensity : Q.
Local Open Scope Q_scope.

Lemma make_perlins_run (seed : option Z) (g : rng_state G) :
  exists (pl pm ps : PerlinNoise) (g' : rng_state G),
    make_perlins seed g = Ok ((pl, pm, ps), g')
    /\ table_ok (permutation pl) = true
    /\ table_ok (permutation pm) = true
    /\ table_ok (permutation ps) = true.
Proof.
  assert (H : forall s1 s2 s3 : option Z,
             exists (pl pm ps : PerlinNoise) (g' : rng_state G),
               bind (PerlinNoise_init s1) (fun pl =>
                 bind (PerlinNoise_init s2) (fun pm =>
                   bind (PerlinNoise_init s3) (fun ps =>
                     ret (pl, pm, ps)))) g = Ok ((pl, pm, ps), g')
               /\ table_ok (permutation pl) = true
               /\ table_ok (permutation pm) = true
               /\ table_ok (permutation ps) = true).
  { intros s1 s2 s3.
    destruct (PerlinNoise_init_run G s1 g) as (p1 & g1 & E1 & P1).
    destruct (PerlinNoise_init_run G s2 g1) as (p2 & g2 & E2 & P2).
    destruct (PerlinNoise_init_run G s3 g2) as (p3 & g3 & E3 & P3).
    eexists. eexists. eexists. exists g3.
    rewrite (bind_ok _ _ _ _ _ _ _ _ E1).
    rewrite (bind_ok _ _ _ _ _ _ _ _ E2).
    rewrite (bind_ok _ _ _ _ _ _ _ _ E3).
    split; [reflexivity |].
    cbn [permutation]. auto using shuffled_table_ok. }
  unfold make_perlins. destruct seed as [s |]; apply H.
Qed.

Lemma while_lon_outcome (fuel : nat) :
  forall (lat lon : Q) (fr : Frame G),
    frame_ok fr = true ->
    while_lon hazard_type unit lon_max grid_spacing base_intensity
      fuel lat lon fr = OutOfFuel
    \/ exists (fr' : Frame G) (new : list HazardRecord.t),
         while_lon hazard_type unit lon_max grid_spacing base_intensity
           fuel lat lon fr = Ok (tt, fr')
         /\ grows hazard_type fr fr' new.
Proof.
  intros lat lon fr Hok.
  destruct (axis fuel lon lon_max grid_spacing) as [lons |] eqn:E.
  - right.
    destruct (while_lon_run G hazard_type unit lon_max grid_spacing
                base_intensity fuel lat lon fr lons Hok E)
      as (fr' & new & E' & Hg & _).
    now exists fr', new.
  - left. now apply while_lon_starves.
Qed.

Lemma while_lat_outcome (n fuel : nat) :
  forall (lat : Q) (fr : Frame G),
    frame_ok fr = true ->
    while_lat hazard_type unit lat_max lon_min lon_max grid_spacing
      base_intensity n fuel lat fr = OutOfFuel
    \/ exists (fr' : Frame G) (new : list HazardRecord.t),
         while_lat hazard_type unit lat_max lon_min lon_max grid_spacing
           base_intensity n fuel lat fr = Ok (tt, fr')
         /\ grows hazard_type fr fr' new.
Proof.
  induction fuel as [| fuel IH]; intros lat fr Hok; [now left |].
  cbn [while_lat]. destruct (Qle_bool lat lat_max).
  - destruct (while_lon_outcome n lat lon_min fr Hok)
      as [E1 | (fr1 & new1 & E1 & G1)].
    + left. now apply bind_out_of_fuel.
    + rewrite (bind_ok _ _ _ _ _ _ _ _ E1).
      destruct (IH (py_round (lat + grid_spacing) 2) fr1
                  (grows_frame_ok G _ _ _ _ G1 Hok))
        as [E2 | (fr2 & new2 & E2 & G2)]; [now left |].
      right. exists fr2, (new1 ++ new2). split; [exact E2 |].
      eapply grows_trans; eassumption.
  - right. exists fr, []. split; [reflexivity | apply grows_refl].
Qed.

(** The frame a run starts the walk with. *)
Lemma generate_hazard_map_unfold (seed : option Z) (fuel : nat)
    (g g' : rng_state G) (pl pm ps : PerlinNoise) :
  make_perlins seed g = Ok ((pl, pm, ps), g') ->
  generate_hazard_map hazard_type unit lat_min lat_max lon_min lon_max
    grid_spacing base_intensity seed fuel g
  = match while_lat hazard_type unit lat_max lon_min lon_max grid_spacing
            base_intensity fuel fuel lat_min
            {| rng := g'; perlin_large := pl; perlin_medium := pm;
               perlin_small := ps; reads := []; rows := [];
               location_id := 1 |} with
    | Ok (_, fr') => Ok fr'
    | Raise e => Raise e
    | OutOfFuel => OutOfFuel
    end.
Proof. intros E. unfold generate_hazard_map. now rewrite E. Qed.

(** A run either is still going when the fuel is spent or hands over a
    frame that the walk has grown from the initial one; it never raises. *)
Lemma generate_hazard_map_outcome (seed : option Z) (fuel : nat)
    (g : rng_state G) :
  exists (pl pm ps : PerlinNoise) (g' : rng_state G),
    make_perlins seed g = Ok ((pl, pm, ps), g')
    /\ table_ok (permutation pl) = true
    /\ table_ok (permutation pm) = true
    /\ table_ok (permutation ps) = true
    /\ (generate_hazard_map hazard_type unit lat_min lat_max lon_min lon_max
          grid_spacing base_intensity seed fuel g = OutOfFuel
        \/ exists fr : Frame G,
             generate_hazard_map hazard_type unit lat_min lat_max lon_min
               lon_max grid_spacing base_intensity seed fuel g = Ok fr
             /\ grows hazard_type
                  {| rng := g'; perlin_large := pl; perlin_medium := pm;
                     perlin_small := ps; reads := []; rows := [];
                     location_id := 1 |} fr (rows fr)).
Proof.
  destruct (make_perlins_run seed g) as (pl & pm & ps & g' & E & T1 & T2 & T3).
  exists pl, pm, ps, g'. repeat (split; [assumption |]).
  rewrite (generate_hazard_map_unfold seed fuel g g' pl pm ps E).
  set (fr0 := {| rng := g'; perlin_large := pl; perlin_medium := pm;
                 perlin_small := ps; reads := []; rows := [];
                 location_id := 1 |}).
  assert (Hok : frame_ok fr0 = true).
  { unfold frame_ok. cbn [fr0 perlin_large perlin_medium perlin_small].
    now rewrite T1, T2, T3. }
  destruct (while_lat_outcome fuel fuel lat_min fr0 Hok)
    as [E1 | (fr & new & E1 & G1)]; rewrite E1; [now left |].
  right. exists fr. split; [reflexivity |].
  assert (Hrows : rows fr = new).
  { destruct G1 as (_ & _ & _ & R & _). exact R. }
  now rewrite Hrows.
Qed.

(** When both axes are finite the run returns one row per pair. *)
Lemma generate_hazard_map_count (seed : option Z) (fuel : nat)
    (g : rng_state G) (lats lons : list Q) :
  axis fuel lat_min lat_max grid_spacing = Some lats ->
  axis fuel lon_min lon_max grid_spacing = Some lons ->
  exists fr : Frame G,
    generate_hazard_map hazard_type unit lat_min lat_max lon_min lon_max
      grid_spacing base_intensity seed fuel g = Ok fr
    /\ List.length (rows fr) = (List.length lats * List.length lons)%nat.
Proof.
  intros Elat Elon.
  destruct (make_perlins_run seed g) as (pl & pm & ps & g' & E & T1 & T2 & T3).
  rewrite (generate_hazard_map_unfold seed fuel g g' pl pm ps E).
  set (fr0 := {| rng := g'; perlin_large := pl; perlin_medium := pm;
                 perlin_small := ps; reads := []; rows := [];
                 location_id := 1 |}).
  assert (Hok : frame_ok fr0 = true).
  { unfold frame_ok. cbn [fr0 perlin_large perlin_medium perlin_small].
    now rewrite T1, T2, T3. }
  destruct (while_lat_run G hazard_type unit lat_max lon_min lon_max
              grid_spacing base_intensity fuel lons fuel Elon lat_min fr0 lats
              Hok Elat) as (fr & new & E1 & G1 & Hlen).
  rewrite E1. exists fr. split; [reflexivity |].
  destruct G1 as (_ & _ & _ & R & _). cbn [fr0 rows app] in R.
  now rewrite R.
Qed.



End RunFacts.

(* ================================================================== *)
(** ** Small runs of the definitions *)

Section Examples.
Local Open Scope Q_scope.

Example format_06d_first : format_06d 1 = "000001"%string.
Proof. reflexivity. Qed.

Example format_06d_wide : format_06d 1234567 = "1234567"%string.
Proof. reflexivity. Qed.

Example format_06d_negative : format_06d (-5) = "-00005"%string.
Proof. reflexivity. Qed.

Example location_name_flood :
  location_name "flood" 1 = "EUR_FLOO_000001"%string.
Proof. reflexivity. Qed.

Example py_round_tie_to_even :
  py_round 0.125 2 = 0.12 /\ py_round 0.135 2 = 0.14.
Proof. split; reflexivity. Qed.

Example py_getitem_negative :
  py_getitem [10; 20; 30]%Z (-1) = Some 30%Z
  /\ py_getitem [10; 20; 30]%Z 3 = None.
Proof. split; reflexivity. Qed.

Example grad_four_directions :
  grad 0 2 5 == 7 /\ grad 1 2 5 == 3 /\ grad 2 2 5 == 3 /\ grad 3 2 5 == -7.
Proof. repeat split; reflexivity. Qed.

Example axis_three_steps :
  option_map (map Qred) (axis 4 35.0 35.18 0.09)
  = Some [35 # 1; 3509 # 100; 1759 # 50].
Proof. vm_compute. reflexivity. Qed.

(** The end-to-end example of the specification: a 3 x 3 grid. *)
Example three_by_three (G : PRNG) (seed : option Z) (g : rng_state G) :
  exists fr : Frame G,
    generate_hazard_map "flood" "meters" 35.0 35.18 (-10.0) (-9.82) 0.09 3.0
      seed 4 g = Ok fr
    /\ List.length (rows fr) = 9%nat.
Proof.
  assert (Elat : axis 4 35.0 35.18 0.09 = Some [35.0; 35.09; 35.18])
    by (vm_compute; reflexivity).
  assert (Elon : axis 4 (-10.0) (-9.82) 0.09 = Some [-10.0; -9.91; -9.82])
    by (vm_compute; reflexivity).
  exact (generate_hazard_map_count G "flood" "meters" 35.0 35.18 (-10.0)
           (-9.82) 0.09 3.0 seed 4 g _ _ Elat Elon).
Qed.

End Examples.

(* ================================================================== *)
(** ** The properties of the specification *)

Section Claims.
Local Open Scope Q_scope.



(** C2. For every latitude and longitude, the blended value, that is the
    sum of the three multi-octave samples weighted 0.6, 0.3 and 0.1 and
    rescaled by [(combined + 1) / 2], lies in [0, 1]. *)
Theorem base_value_in_unit_interval (G : PRNG) (fr : Frame G) (lat lon : Q) :
  frame_ok fr = true ->
  exists (b : Q) (fr' : Frame G),
    base_value lat lon fr = Ok (b, fr') /\ 0 <= b /\ b <= 1.
Proof.
  intros Hok.
  destruct (base_value_run G fr lat lon Hok) as (b & idx & E & _ & Hb).
  exists b. eexists. split; [exact E | exact Hb].
Qed.

Lemma base_value_in_unit_interval_witness :
  frame_ok sample_frame = true
  /\ exists (b : Q) (fr' : Frame lcg),
       base_value 35.09 (-9.91) sample_frame = Ok (b, fr')
       /\ 0 <= b /\ b <= 1.
Proof.
  assert (H1 : frame_ok sample_frame = true) by (vm_compute; reflexivity).
  split; [assumption |].
  exact (base_value_in_unit_interval lcg sample_frame 35.09 (-9.91) H1).
Defined.

(** C3. For every blended value in [0, 1], every base intensity that is not
    negative and every draw of the jitter multipliers, the three intensities
    satisfy period 1 <= period 2 <= period 3, before and after they are
    rounded for the record. *)
Theorem periods_monotone (G : PRNG) (base_intensity b : Q) (g : rng_state G) :
  0 <= base_intensity -> 0 <= b -> b <= 1 ->
  exists (p : Periods) (g' : rng_state G),
    periods base_intensity b g = Ok (p, g')
    /\ period_1_intensity p <= period_2_intensity p
    /\ period_2_intensity p <= period_3_intensity p
    /\ py_round (period_1_intensity p) 3 <= py_round (period_2_intensity p) 3
    /\ py_round (period_2_intensity p) 3 <= py_round (period_3_intensity p) 3.
Proof.
  intros Hbi Hb0 _.
  destruct (periods_run G base_intensity b g) as (p & g' & E & H).
  destruct (H Hbi Hb0) as (_ & H12 & H23).
  exists p, g'. split; [exact E |].
  repeat split; try assumption; now apply py_round_mono.
Qed.

Lemma periods_monotone_witness :
  0 <= 3 /\ 0 <= 0.25 /\ 0.25 <= 1
  /\ exists (p : Periods) (g' : rng_state lcg),
       periods (G := lcg) 3 0.25 42%Z = Ok (p, g')
       /\ period_1_intensity p <= period_2_intensity p
       /\ period_2_intensity p <= period_3_intensity p
       /\ py_round (period_1_intensity p) 3 <= py_round (period_2_intensity p) 3
       /\ py_round (period_2_intensity p) 3 <= py_round (period_3_intensity p) 3.
Proof.
  assert (H1 : 0 <= 3) by discriminate.
  assert (H2 : 0 <= 0.25) by discriminate.
  assert (H3 : 0.25 <= 1) by discriminate.
  repeat (split; [assumption |]).
  exact (periods_monotone lcg 3 0.25 42%Z H1 H2 H3).
Defined.

(** C10. For every coordinate pair, every subscript with which [noise] reads
    the permutation table lies in [0, 511]: the cell indices are masked into
    [0, 255], so no subscript exceeds 255 + 255 + 1, and no read of the
    512-entry table raises [IndexError]. *)
Theorem noise_subscripts_in_bounds (st : Access) (x y : Q) :
  table_ok (permutation (self st)) = true ->
  (0 <= Z.land (Qfloor x) 255 <= 255)%Z
  /\ (0 <= Z.land (Qfloor y) 255 <= 255)%Z
  /\ exists (v : Q) (idx : list Z),
       noise x y st
       = Ok (v, {| self := self st; subscripts := subscripts st ++ idx |})
       /\ List.length idx = 8%nat
       /\ Forall (fun i => (0 <= i <= 511)%Z) idx
       /\ List.length (permutation (self st)) = 512%nat.
Proof.
  intros Hp.
  split; [apply land_255_range |]. split; [apply land_255_range |].
  destruct (noise_run st x y Hp) as (v & idx & E & Hidx & Hlen & _).
  exists v, idx. repeat split; try assumption.
  now apply table_ok_length.
Qed.

Lemma noise_subscripts_in_bounds_witness :
  table_ok (permutation (self sample_access)) = true
  /\ exists (v : Q) (idx : list Z),
       noise (-1234.5) 7.25 sample_access
       = Ok (v, {| self := self sample_access;
                   subscripts := subscripts sample_access ++ idx |})
       /\ List.length idx = 8%nat
       /\ Forall (fun i => (0 <= i <= 511)%Z) idx.
Proof.
  assert (H1 : table_ok (permutation (self sample_access)) = true)
    by (vm_compute; reflexivity).
  split; [assumption |].
  destruct (noise_subscripts_in_bounds sample_access (-1234.5) 7.25 H1)
    as (_ & _ & v & idx & E & Hlen & Hidx & _).
  exists v, idx. repeat split; assumption.
Defined.

(** The two axes of the grid of [main]. *)
Lemma europe_latitudes :
  exists lats : list Q,
    axis 557 35.0 71.0 0.09 = Some lats /\ List.length lats = 401%nat.
Proof. eexists. split; vm_compute; reflexivity. Qed.

Lemma europe_longitudes :
  exists lons : list Q,
    axis 557 (-10.0) 40.0 0.09 = Some lons /\ List.length lons = 556%nat.
Proof. eexists. split; vm_compute; reflexivity. Qed.

(** C5. The walk over latitudes [35.0, 71.0] and longitudes [-10.0, 40.0]
    with spacing 0.09, each coordinate rounded to two decimals after each
    increment, produces (floor((71.0 - 35.0) / 0.09) + 1) *
    (floor((40.0 - (-10.0)) / 0.09) + 1) = 401 * 556 records. *)
Theorem europe_grid_cardinality (G : PRNG) (hazard_type unit : string)
    (base_intensity : Q) (seed : option Z) (g : rng_state G) (fuel : nat) :
  (557 <= fuel)%nat ->
  exists fr : Frame G,
    generate_hazard_map hazard_type unit 35.0 71.0 (-10.0) 40.0 0.09
      base_intensity seed fuel g = Ok fr
    /\ List.length (rows fr) = (401 * 556)%nat
    /\ Z.of_nat 401 = (Qfloor ((71.0 - 35.0) / 0.09) + 1)%Z
    /\ Z.of_nat 556 = (Qfloor ((40.0 - (-10.0)) / 0.09) + 1)%Z.
Proof.
  intros Hfuel.
  destruct europe_latitudes as (lats & Elat & Hlat).
  destruct europe_longitudes as (lons & Elon & Hlon).
  apply (axis_more_fuel _ _ 557 fuel _ _ Hfuel) in Elat, Elon.
  destruct (generate_hazard_map_count G hazard_type unit 35.0 71.0 (-10.0) 40.0
              0.09 base_intensity seed fuel g lats lons Elat Elon)
    as (fr & E & Hlen).
  exists fr. split; [exact E |]. rewrite Hlen, Hlat, Hlon.
  repeat split; vm_compute; reflexivity.
Qed.

Lemma europe_grid_cardinality_witness :
  (557 <= 557)%nat
  /\ exists fr : Frame lcg,
       generate_hazard_map (G := lcg) "flood" "meters" 35.0 71.0 (-10.0) 40.0
         0.09 3.0 (Some 42%Z) 557 0%Z = Ok fr
       /\ List.length (rows fr) = (401 * 556)%nat.
Proof.
  assert (H : (557 <= 557)%nat) by lia.
  split; [assumption |].
  destruct (europe_grid_cardinality lcg "flood" "meters" 3.0 (Some 42%Z) 0%Z
              557 H) as (fr & E & Hlen & _).
  exists fr. split; assumption.
Defined.

Lemma PerlinNoise_init_seeded (G : PRNG) (a : Z) (g1 g2 : rng_state G) :
  PerlinNoise_init (Some a) g1 = PerlinNoise_init (Some a) g2.
Proof.
  unfold PerlinNoise_init. unfold bind at 1 3. unfold random_seed, put.
  reflexivity.
Qed.

(** C8. With a seed, a run is a function of its arguments alone: whatever
    state the process-wide generator is in beforehand, the three seeded
    constructors reseed it, the last one with [seed + 2], and the complete
    outcome, jitter included, is the same. *)
Theorem seeded_run_deterministic (G : PRNG) (hazard_type unit : string)
    (lat_min lat_max lon_min lon_max grid_spacing base_intensity : Q)
    (seed : Z) (fuel : nat) (g1 g2 : rng_state G) :
  generate_hazard_map hazard_type unit lat_min lat_max lon_min lon_max
    grid_spacing base_intensity (Some seed) fuel g1
  = generate_hazard_map hazard_type unit lat_min lat_max lon_min lon_max
      grid_spacing base_intensity (Some seed) fuel g2
  /\ exists (pl pm ps : PerlinNoise) (g' : rng_state G),
       make_perlins (Some seed) g1 = Ok ((pl, pm, ps), g')
       /\ make_perlins (Some seed) g2 = Ok ((pl, pm, ps), g')
       /\ PerlinNoise_init (Some (seed + 2)%Z) g1 = Ok (ps, g').
Proof.
  assert (Hmk : make_perlins (Some seed) g1 = make_perlins (Some seed) g2).
  { unfold make_perlins, bind.
    now rewrite (PerlinNoise_init_seeded G seed g1 g2). }
  split.
  - unfold generate_hazard_map. now rewrite Hmk.
  - rewrite <- Hmk. unfold make_perlins.
    destruct (PerlinNoise_init_run G (Some seed) g1) as (p1 & s1 & E1 & _).
    destruct (PerlinNoise_init_run G (Some (seed + 1)%Z) s1)
      as (p2 & s2 & E2 & _).
    destruct (PerlinNoise_init_run G (Some (seed + 2)%Z) s2)
      as (p3 & s3 & E3 & _).
    rewrite (bind_ok _ _ _ _ _ _ _ _ E1).
    rewrite (bind_ok _ _ _ _ _ _ _ _ E2).
    rewrite (bind_ok _ _ _ _ _ _ _ _ E3).
    eexists. eexists. eexists. exists s3.
    split; [reflexivity |]. split; [reflexivity |].
    rewrite (PerlinNoise_init_seeded G (seed + 2) g1 s2). exact E3.
Qed.






Lemma doubled_table_shape (p : list Z) :
  Permutation (py_range 256) p ->
  List.length (p ++ p) = 512%nat
  /\ firstn 256 (p ++ p) = p
  /\ skipn 256 (p ++ p) = p
  /\ NoDup p
  /\ (forall v : Z, (0 <= v <= 255)%Z ->
      count_occ Z.eq_dec (p ++ p) v = 2%nat).
Proof.
  intros Hp.
  assert (Hlen : List.length p = 256%nat)
    by (rewrite <- (Permutation_length Hp); reflexivity).
  assert (Hnd : NoDup p)
    by (apply (Permutation_NoDup Hp), py_range_NoDup).
  split; [rewrite length_app, Hlen; reflexivity |].
  split.
  { rewrite firstn_app, Hlen, Nat.sub_diag, <- Hlen, firstn_all.
    cbn [firstn]. apply app_nil_r. }
  split.
  { rewrite skipn_app, Hlen, Nat.sub_diag, <- Hlen, skipn_all.
    reflexivity. }
  split; [exact Hnd |].
  intros v Hv. rewrite count_occ_app.
  assert (Hin : In v p).
  { apply (Permutation_in _ Hp). apply py_range_In. lia. }
  rewrite (proj1 (NoDup_count_occ' Z.eq_dec p) Hnd v Hin). reflexivity.
Qed.

(** C7. After construction the permutation table has 512 entries: a
    rearrangement of 0..255, without repetition, followed by a copy of
    itself, so that each value occurs exactly twice.  Nothing changes it
    afterwards: [noise] and [multi_octave_noise] hand their receiver back
    as they got it, and the objects a run ends with are the ones it
    built. *)
Theorem permutation_table_invariant (G : PRNG) (seed : option Z)
    (g : rng_state G) :
  (exists (obj : PerlinNoise) (g' : rng_state G),
     PerlinNoise_init seed g = Ok (obj, g')
     /\ List.length (permutation obj) = 512%nat
     /\ Permutation (py_range 256) (firstn 256 (permutation obj))
     /\ skipn 256 (permutation obj) = firstn 256 (permutation obj)
     /\ NoDup (firstn 256 (permutation obj))
     /\ (forall v : Z, (0 <= v <= 255)%Z ->
         count_occ Z.eq_dec (permutation obj) v = 2%nat))
  /\ (forall x y : Q, keeps_self (noise x y))
  /\ (forall (x y : Q) (octaves : Z) (persistence lacunarity : Q),
        keeps_self (multi_octave_noise x y octaves persistence lacunarity))
  /\ (forall (hazard_type unit : string)
             (lat_min lat_max lon_min lon_max grid_spacing base_intensity : Q)
             (fuel : nat) (fr : Frame G),
        generate_hazard_map hazard_type unit lat_min lat_max lon_min lon_max
          grid_spacing base_intensity seed fuel g = Ok fr ->
        exists (pl pm ps : PerlinNoise) (g1 : rng_state G),
          make_perlins seed g = Ok ((pl, pm, ps), g1)
          /\ perlin_large fr = pl /\ perlin_medium fr = pm
          /\ perlin_small fr = ps).
Proof.
  split.
  { destruct (PerlinNoise_init_run G seed g) as (p & g' & E & Hp).
    destruct (doubled_table_shape p Hp) as (H1 & H2 & H3 & H4 & H5).
    exists {| permutation := p ++ p |}, g'. cbn [permutation].
    rewrite H2, H3. repeat split; assumption. }
  split; [exact noise_keeps_self |].
  split; [exact multi_octave_noise_keeps_self |].
  intros hazard_type unit lat_min lat_max lon_min lon_max grid_spacing
    base_intensity fuel fr E.
  destruct (generate_hazard_map_outcome G hazard_type unit lat_min lat_max
              lon_min lon_max grid_spacing base_intensity seed fuel g)
    as (pl & pm & ps & g1 & Emk & _ & _ & _ & [E0 | (fr' & E1 & Hg)]).
  - rewrite E0 in E. discriminate.
  - rewrite E1 in E. injection E as <-.
    destruct Hg as (L & M & S & _). cbn in L, M, S.
    exists pl, pm, ps, g1. repeat split; assumption.
Qed.



(** A run over a single grid cell, evaluated: it returns one record. *)
Lemma single_cell_rows :
  match generate_hazard_map (G := lcg) "flood" "meters" 35.0 35.0 (-10.0)
          (-10.0) 0.09 3.0 (Some 42%Z) 2 0%Z with
  | Ok fr => Some (List.length (rows fr))
  | _ => None
  end = Some 1%nat.
Proof. vm_compute. reflexivity. Qed.

Lemma single_cell_run :
  exists fr : Frame lcg,
    generate_hazard_map (G := lcg) "flood" "meters" 35.0 35.0 (-10.0) (-10.0)
      0.09 3.0 (Some 42%Z) 2 0%Z = Ok fr
    /\ List.length (rows fr) = 1%nat.
Proof.
  pose proof single_cell_rows as H.
  destruct (generate_hazard_map (G := lcg) "flood" "meters" 35.0 35.0 (-10.0)
              (-10.0) 0.09 3.0 (Some 42%Z) 2 0%Z) as [fr | e |];
    [| discriminate H | discriminate H].
  exists fr. split; [reflexivity | congruence].
Defined.

Lemma permutation_table_invariant_witness :
  (exists (obj : PerlinNoise) (g' : rng_state lcg),
     PerlinNoise_init (G := lcg) (Some 42%Z) 0%Z = Ok (obj, g')
     /\ List.length (permutation obj) = 512%nat
     /\ count_occ Z.eq_dec (permutation obj) 7%Z = 2%nat)
  /\ (exists (fr : Frame lcg) (pl pm ps : PerlinNoise) (g1 : rng_state lcg),
        generate_hazard_map (G := lcg) "flood" "meters" 35.0 35.0 (-10.0)
          (-10.0) 0.09 3.0 (Some 42%Z) 2 0%Z = Ok fr
        /\ make_perlins (G := lcg) (Some 42%Z) 0%Z = Ok ((pl, pm, ps), g1)
        /\ perlin_large fr = pl /\ perlin_medium fr = pm
        /\ perlin_small fr = ps).
Proof.
  destruct (permutation_table_invariant lcg (Some 42%Z) 0%Z)
    as ((obj & g' & E & Hlen & _ & _ & _ & Hcount) & _ & _ & Hrun).
  split.
  - exists obj, g'. split; [exact E |]. split; [exact Hlen |].
    apply Hcount. lia.
  - destruct single_cell_run as (fr & Erun & _).
    destruct (Hrun "flood"%string "meters"%string 35.0 35.0 (-10.0) (-10.0)
                0.09 3.0 2%nat fr Erun) as (pl & pm & ps & g1 & H).
    exists fr, pl, pm, ps, g1. split; [exact Erun | exact H].
Defined.






End Claims.
